(** * complexP: reliability of series/parallel systems (src/pSystem.py)

    A shallow embedding of the two classes of [pSystem.py] and the proofs of
    the reliability laws the specification states about them.

    Numbers.  The program computes with numpy's [float64]; the specification
    states its laws over the real numbers ("p(t: real) -> real in [0,1]").
    The embedding follows the specification's reading: a finite float is a
    real number [R], [np.exp] is the real exponential and [*], [-] are the
    exact field operations.  Rounding of binary64, its underflow to zero
    and its infinities are outside the model; the one special float the
    program itself produces from well-typed values, [nan], is modelled.

    Python values and exceptions.  A call either returns a value or raises.
    [System.p] can fall off the end of its [if]/[elif] and return [None];
    Python's arithmetic on [None] raises [TypeError], while numpy's
    conversion of [None] to a float stores [nan].  All of this is modelled,
    with a small error monad. *)

From Stdlib Require Import Reals Lra List String Bool Permutation.
Import ListNotations.
Open Scope R_scope.

(* ------------------------------------------------------------------------- *)
(** ** Python runtime: values, exceptions, the error monad *)

Module Py.

(** A float: a real number, or [nan]. *)
Inductive float64 : Type :=
| Finite (x : R)
| NaN.

(** The values the methods of [pSystem.py] return: a float, or [None]. *)
Inductive pyval : Type :=
| PyF (f : float64)
| PyNone.

(** A raised exception, by the name of its class. *)
Inductive exn : Type :=
| Raise (cls : string).

(** The outcome of evaluating a Python expression. *)
Inductive result (A : Type) : Type :=
| Ok (a : A)
| Err (e : exn).
Arguments Ok {A} a.
Arguments Err {A} e.

Definition bind {A B : Type} (m : result A) (k : A -> result B) : result B :=
  match m with
  | Ok a => k a
  | Err e => Err e
  end.

Definition TypeError : exn := Raise "TypeError".
Definition AttributeError : exn := Raise "AttributeError".

(** Float subtraction and multiplication: [nan] on either side gives
    [nan]. *)
Definition fsub (a b : float64) : float64 :=
  match a, b with
  | Finite x, Finite y => Finite (x - y)
  | _, _ => NaN
  end.

Definition fmul (a b : float64) : float64 :=
  match a, b with
  | Finite x, Finite y => Finite (x * y)
  | _, _ => NaN
  end.

(** The float numpy stores for an item of a [float] array: the float
    itself, and [nan] for [None]. *)
Definition to_float (v : pyval) : float64 :=
  match v with
  | PyF f => f
  | PyNone => NaN
  end.

(** [x - v] for the Python number [x]: [1 - None] raises [TypeError]. *)
Definition rsub (x : R) (v : pyval) : result pyval :=
  match v with
  | PyF f => Ok (PyF (fsub (Finite x) f))
  | PyNone => Err TypeError
  end.

(** [a * b]: [None] on either side raises [TypeError]. *)
Definition mul (a b : pyval) : result pyval :=
  match a, b with
  | PyF x, PyF y => Ok (PyF (fmul x y))
  | _, _ => Err TypeError
  end.

(** [r] raises an exception of class [cls]. *)
Definition raises {A : Type} (cls : string) (r : result A) : Prop :=
  r = Err (Raise cls).

End Py.
Import Py.

(** A float that is the real number [x]; the float [nan]. *)
Abbreviation PyFloat x := (PyF (Finite x)).
Abbreviation PyNaN := (PyF NaN).

Notation "x <- m ;; k" := (bind m (fun x => k))
  (at level 61, m at next level, right associativity).

(* ------------------------------------------------------------------------- *)
(** ** The numpy functions the program calls *)

Module np.

(** [np.exp] on a scalar. *)
Definition exp (x : R) : R := Rtrigo_def.exp x.

(** [np.fromiter(items, float)]: runs the generator from left to right and
    stores every item as a float ([nan] for [None]); the first item whose
    evaluation raises ends the call with that exception. *)
Fixpoint fromiter (items : list (result pyval)) : result (list float64) :=
  match items with
  | [] => Ok []
  | item :: rest =>
      v <- item ;;
      xs <- fromiter rest ;;
      Ok (to_float v :: xs)
  end.

(** [np.prod] of a one-dimensional array: the running product from the left,
    starting from the multiplicative identity (the value for an empty array). *)
Definition prod (a : list float64) : float64 := fold_left fmul a (Finite 1).

End np.

(* ------------------------------------------------------------------------- *)
(** ** The classes [Component] and [System] *)

(** An object of either class, with the attributes [__init__] stores:
    [self.l] for a [Component]; [self.comps], [self.parallel], [self.series]
    for a [System]. *)
#[local] Unset Elimination Schemes.
Inductive Node : Type :=
| Component (l : R)
| System (comps : list Node) (parallel series : bool).
#[local] Set Elimination Schemes.

(** Induction on the tree of objects: a property of every child carries to
    the [System] that holds them. *)
Definition Node_tree_ind (P : Node -> Prop)
  (HComponent : forall l, P (Component l))
  (HSystem : forall comps parallel series,
      Forall P comps -> P (System comps parallel series))
  : forall n, P n :=
  fix rec (n : Node) : P n :=
    match n with
    | Component l => HComponent l
    | System comps parallel series =>
        HSystem comps parallel series
          ((fix all (cs : list Node) : Forall P cs :=
              match cs with
              | [] => Forall_nil P
              | c :: cs' => Forall_cons c (rec c) (all cs')
              end) comps)
    end.

(** [Component.__init__]: stores [l], checks nothing. *)
Definition Component_init (l : R) : result Node := Ok (Component l).

(** [System.__init__]: stores its three arguments, checks nothing. *)
Definition System_init (componentsAndSubSystems : list Node)
  (parallel series : bool) : result Node :=
  Ok (System componentsAndSubSystems parallel series).

(** [self.p(t)], dispatched on the class of [self].
    [Component.p] returns [np.exp(-self.l * t)].
    [System.p] tests [self.parallel] first, then [self.series]; with neither
    set the method ends without a [return], which yields [None].
    In the parallel branch the generator subtracts in Python ([1 - c.p(t)],
    which raises on [None]); in the series branch the items reach numpy as
    they are (and [None] is stored as [nan]). *)
Fixpoint p (self : Node) (t : R) : result pyval :=
  match self with
  | Component l => Ok (PyFloat (np.exp (- l * t)))
  | System comps parallel series =>
      if parallel then
        let generateQ := fun c => v <- p c t ;; rsub 1 v in
        let Qs := map generateQ comps in
        allQ <- np.fromiter Qs ;;
        Ok (PyF (fsub (Finite 1) (np.prod allQ)))
      else if series then
        let generateP := fun c => p c t in
        let Ps := map generateP comps in
        allP <- np.fromiter Ps ;;
        Ok (PyF (np.prod allP))
      else Ok PyNone
  end.

(** [self.condProb(dependence, t, negate)]; only [System] defines it. *)
Definition condProb (self dependence : Node) (t : R) (negate : bool)
  : result pyval :=
  match self with
  | Component _ => Err AttributeError
  | System _ _ _ =>
      if negate then
        s <- p self t ;;
        d <- p dependence t ;;
        q <- rsub 1 d ;;
        mul s q
      else
        s <- p self t ;;
        d <- p dependence t ;;
        mul s d
  end.

(* ------------------------------------------------------------------------- *)
(** ** Vocabulary of the specification *)

(** The product [Π xs] of a finite family of reals. *)
Definition Rprod (xs : list R) : R := fold_right Rmult 1 xs.

(** "The children's probabilities at time [t] are [ps]": every child's
    [p(t)] returns a number, and [ps] lists these numbers in order. *)
Definition probs (comps : list Node) (t : R) (ps : list R) : Prop :=
  Forall2 (fun c x => p c t = Ok (PyFloat x)) comps ps.

(** A number is a probability. *)
Definition in_unit (x : R) : Prop := 0 <= x <= 1.

(** An item of a generator that raises nothing but [TypeError]. *)
Definition only_TypeError (item : result pyval) : Prop :=
  forall e, item = Err e -> e = TypeError.

(** Every [System] of the tree has a topology flag set. *)
Fixpoint has_topology (n : Node) : bool :=
  match n with
  | Component _ => true
  | System comps parallel series =>
      (parallel || series) && forallb has_topology comps
  end.

(** Every [Component] of the tree has a rate [l >= 0]. *)
Fixpoint rates_nonneg (n : Node) : Prop :=
  match n with
  | Component l => 0 <= l
  | System comps _ _ => fold_right (fun c acc => rates_nonneg c /\ acc) True comps
  end.

(** The [System] itself has a topology flag set (a [Component] needs
    none): [self.parallel or self.series]. *)
Definition topology_set (n : Node) : bool :=
  match n with
  | Component _ => true
  | System _ parallel series => parallel || series
  end.

(** No PARALLEL [System] of the tree has an empty list of children. *)
Fixpoint parallel_nonempty (n : Node) : bool :=
  match n with
  | Component _ => true
  | System comps parallel _ =>
      negb (parallel && match comps with [] => true | _ :: _ => false end)
      && forallb parallel_nonempty comps
  end.


(** The evaluation of [p] meets a [1 - None]: a PARALLEL [System] that
    [p] reaches has a child [System] with neither flag set.  ([p] reaches
    the children of a [System] with a flag set, and only those.) *)
Fixpoint subtracts_from_None (n : Node) : bool :=
  match n with
  | Component _ => false
  | System comps parallel series =>
      if parallel then
        existsb (fun c => negb (topology_set c) || subtracts_from_None c) comps
      else if series then existsb subtracts_from_None comps
      else false
  end.

(* ------------------------------------------------------------------------- *)
(** ** Float arithmetic *)


Lemma fmul_assoc (a b c : float64) : fmul a (fmul b c) = fmul (fmul a b) c.
Proof.
  destruct a, b, c; simpl; trivial. f_equal. ring.
Qed.

Lemma fmul_1_l (a : float64) : fmul (Finite 1) a = a.
Proof.
  destruct a; simpl; trivial. f_equal. ring.
Qed.


(* ------------------------------------------------------------------------- *)
(** ** Products *)

Lemma fold_left_fmul_acc (a : list float64) (acc : float64) :
  fold_left fmul a acc = fmul acc (np.prod a).
Proof.
  unfold np.prod. revert acc.
  induction a as [|x a IH]; intros acc; cbn [fold_left].
  - destruct acc; simpl; trivial. f_equal. ring.
  - rewrite IH, (IH (fmul (Finite 1) x)), fmul_1_l. apply eq_sym, fmul_assoc.
Qed.

Lemma np_prod_cons (x : float64) (a : list float64) :
  np.prod (x :: a) = fmul x (np.prod a).
Proof.
  unfold np.prod at 1. cbn [fold_left].
  now rewrite fold_left_fmul_acc, fmul_1_l.
Qed.


Lemma np_prod_Rprod (a : list R) : np.prod (map Finite a) = Finite (Rprod a).
Proof.
  induction a as [|x a IH]; cbn [map]; [reflexivity|].
  now rewrite np_prod_cons, IH.
Qed.


(** An array whose product is a real number holds real numbers only. *)
Lemma np_prod_Finite (a : list float64) (x : R) :
  np.prod a = Finite x -> exists ps, a = map Finite ps.
Proof.
  revert x. induction a as [|y a IH]; intros x.
  - intros _. now exists [].
  - rewrite np_prod_cons. destruct y as [y|]; [|discriminate].
    destruct (np.prod a) as [z|] eqn:E; [|discriminate]. intros _.
    destruct (IH z eq_refl) as [ps ->]. now exists (y :: ps).
Qed.

Lemma Rprod_Permutation (xs ys : list R) :
  Permutation xs ys -> Rprod xs = Rprod ys.
Proof.
  induction 1 as [|x xs ys _ IH|x y xs|xs ys zs _ IH1 _ IH2]; simpl.
  - reflexivity.
  - now rewrite IH.
  - ring.
  - now rewrite IH1.
Qed.

Lemma Rprod_in_unit (xs : list R) :
  Forall in_unit xs -> in_unit (Rprod xs).
Proof.
  unfold in_unit.
  induction 1 as [|x xs Hx _ IH]; simpl.
  - lra.
  - split; nra.
Qed.

Lemma complement_in_unit (xs : list R) :
  Forall in_unit xs -> Forall in_unit (map (fun x => 1 - x) xs).
Proof.
  unfold in_unit.
  induction 1 as [|x xs Hx _ IH]; simpl; constructor; trivial; lra.
Qed.

(* ------------------------------------------------------------------------- *)
(** ** The two generators of [System.p] *)

Section Generators.
Variable t : R.

(** The series generator [Ps]: one item [c.p(t)] per child. *)
Lemma fromiter_Ps (comps : list Node) (ps : list R) :
  probs comps t ps ->
  np.fromiter (map (fun c => p c t) comps) = Ok (map Finite ps).
Proof.
  induction 1 as [|c x comps ps Hc _ IH]; simpl.
  - reflexivity.
  - rewrite Hc; simpl. rewrite IH; reflexivity.
Qed.

(** The parallel generator [Qs]: one item [1 - c.p(t)] per child. *)
Lemma fromiter_Qs (comps : list Node) (ps : list R) :
  probs comps t ps ->
  np.fromiter (map (fun c => v <- p c t ;; rsub 1 v) comps)
  = Ok (map Finite (map (fun x => 1 - x) ps)).
Proof.
  induction 1 as [|c x comps ps Hc _ IH]; simpl.
  - reflexivity.
  - rewrite Hc; simpl. rewrite IH; reflexivity.
Qed.

End Generators.

(** Runs [System.p] on children whose probabilities [Hps] gives: unfolds
    the branch taken, evaluates the generator and the array product. *)
Ltac run_System_p Hps :=
  cbn [p];
  first [ rewrite (fromiter_Qs _ _ _ Hps) | rewrite (fromiter_Ps _ _ _ Hps) ];
  cbn [bind]; rewrite np_prod_Rprod; cbn [fsub].

(* ------------------------------------------------------------------------- *)
(** ** What [p] can raise, and when it returns a number *)

Lemma fromiter_only_TypeError (items : list (result pyval)) (e : exn) :
  Forall only_TypeError items -> np.fromiter items = Err e -> e = TypeError.
Proof.
  induction 1 as [|item rest Hitem _ IH]; simpl; [discriminate|].
  destruct item as [v|e0]; simpl.
  - destruct (np.fromiter rest); simpl; [discriminate|].
    intros [= <-]. now apply IH.
  - intros [= <-]. now apply Hitem.
Qed.

Lemma generateQ_only_TypeError (c : Node) (t : R) :
  only_TypeError (p c t) -> only_TypeError (v <- p c t ;; rsub 1 v).
Proof.
  intros Hc e. destruct (p c t) as [[f|]|e0]; simpl; try discriminate.
  - now intros [= <-].
  - intros [= <-]. now apply Hc.
Qed.

Lemma p_only_TypeError (n : Node) (t : R) : only_TypeError (p n t).
Proof.
  induction n as [l|comps parallel series IH] using Node_tree_ind;
    intros e; simpl; [discriminate|].
  destruct parallel; [|destruct series; [|discriminate]].
  - destruct (np.fromiter _) eqn:E; simpl; [discriminate|].
    intros [= <-]. eapply fromiter_only_TypeError; [|exact E].
    rewrite Forall_map. revert IH. apply Forall_impl.
    intros c. apply generateQ_only_TypeError.
  - destruct (np.fromiter _) eqn:E; simpl; [discriminate|].
    intros [= <-]. eapply fromiter_only_TypeError; [|exact E].
    rewrite Forall_map. exact IH.
Qed.

(** A tree in which every [System] has a topology returns a number. *)
Lemma probs_exists (comps : list Node) (t : R) :
  Forall (fun c => has_topology c = true ->
                   exists x, p c t = Ok (PyFloat x)) comps ->
  forallb has_topology comps = true ->
  exists ps, probs comps t ps.
Proof.
  induction 1 as [|c comps Hc _ IH]; simpl; intros Ht.
  - exists []. constructor.
  - apply andb_true_iff in Ht as [Htc Htl].
    destruct (Hc Htc) as [x Hx]. destruct (IH Htl) as [ps Hps].
    exists (x :: ps). now constructor.
Qed.

Lemma p_total (n : Node) (t : R) :
  has_topology n = true -> exists x, p n t = Ok (PyFloat x).
Proof.
  induction n as [l|comps parallel series IH] using Node_tree_ind; intros Ht.
  - eexists. reflexivity.
  - cbn [has_topology] in Ht. apply andb_true_iff in Ht as [Hflag Hcs].
    destruct (probs_exists _ t IH Hcs) as [ps Hps].
    destruct parallel; [|destruct series; [|discriminate]];
      run_System_p Hps; eexists; reflexivity.
Qed.

(* ------------------------------------------------------------------------- *)
(** ** Reordering the items of a generator *)





(* ------------------------------------------------------------------------- *)
(** ** Probabilities stay in the unit interval *)

Lemma np_exp_in_unit (x : R) : x <= 0 -> in_unit (np.exp x).
Proof.
  unfold in_unit, np.exp. intros Hx. split.
  - left. apply exp_pos.
  - destruct Hx as [Hlt| ->].
    + left. rewrite <- exp_0. now apply exp_increasing.
    + right. apply exp_0.
Qed.

Lemma combine_in_unit (ps : list R) :
  Forall in_unit ps ->
  in_unit (Rprod ps) /\ in_unit (1 - Rprod (map (fun x => 1 - x) ps)).
Proof.
  intros H. split; [now apply Rprod_in_unit|].
  apply complement_in_unit, Rprod_in_unit in H.
  unfold in_unit in *. lra.
Qed.

(** The probabilities of the children of a tree whose leaves and inner
    nodes are as the data model asks: rates [>= 0], a topology everywhere. *)
Lemma probs_in_unit_exists (comps : list Node) (t : R) :
  Forall (fun c => has_topology c = true -> rates_nonneg c ->
                   exists x, p c t = Ok (PyFloat x) /\ in_unit x) comps ->
  forallb has_topology comps = true ->
  fold_right (fun c acc => rates_nonneg c /\ acc) True comps ->
  exists ps, probs comps t ps /\ Forall in_unit ps.
Proof.
  induction 1 as [|c comps Hc _ IH]; simpl; intros Ht Hr.
  - exists []. split; constructor.
  - apply andb_true_iff in Ht as [Htc Htl]. destruct Hr as [Hrc Hrl].
    destruct (Hc Htc Hrc) as (x & Hx & Hux).
    destruct (IH Htl Hrl) as (ps & Hps & Hups).
    exists (x :: ps). split; now constructor.
Qed.

(** The bound of the unit interval, carried through the whole tree. *)
Lemma p_tree_in_unit (n : Node) (t : R) :
  0 <= t -> has_topology n = true -> rates_nonneg n ->
  exists x, p n t = Ok (PyFloat x) /\ in_unit x.
Proof.
  intros Ht.
  induction n as [l|comps parallel series IH] using Node_tree_ind;
    intros Htop Hrates.
  - eexists. split; [reflexivity|]. apply np_exp_in_unit.
    simpl in Hrates. nra.
  - cbn [has_topology] in Htop. apply andb_true_iff in Htop as [Hflag Hcs].
    destruct (probs_in_unit_exists _ t IH Hcs Hrates) as (ps & Hps & Hu).
    destruct (combine_in_unit _ Hu) as [Hser Hpar].
    destruct parallel; [|destruct series; [|discriminate]].
    + run_System_p Hps. eexists. split; [reflexivity|exact Hpar].
    + run_System_p Hps. eexists. split; [reflexivity|exact Hser].
Qed.

(* ------------------------------------------------------------------------- *)
(** ** The laws of the specification *)





(** C3.  For a rate [>= 0] and a time [t >= 0], [Component.p(t)] is
    [exp(-rate * t)], the exponential of the negated product. *)
Theorem Component_p_exponential (rate t : R) :
  0 <= rate -> 0 <= t ->
  p (Component rate) t = Ok (PyFloat (Rtrigo_def.exp (- (rate * t)))).
Proof.
  intros _ _. cbn [p]. unfold np.exp.
  replace (- rate * t) with (- (rate * t)) by ring.
  reflexivity.
Qed.

(** Scenario B of the specification: rate 0.1 at [t = 10]. *)
Lemma Component_p_exponential_scenario_B :
  p (Component (1/10)) 10 = Ok (PyFloat (Rtrigo_def.exp (- (1/10 * 10)))).
Proof.
  apply Component_p_exponential; lra.
Defined.

(** C4.  When [S.p(t)] and [dep.p(t)] are the numbers [s] and [d],
    [S.condProb(dep, t)] is [s * d] and [S.condProb(dep, t, negate=True)]
    is [s * (1 - d)]. *)
Theorem condProb_law (comps : list Node) (parallel series : bool)
  (dep : Node) (t s d : R) :
  let S := System comps parallel series in
  p S t = Ok (PyFloat s) ->
  p dep t = Ok (PyFloat d) ->
  condProb S dep t false = Ok (PyFloat (s * d)) /\
  condProb S dep t true = Ok (PyFloat (s * (1 - d))).
Proof.
  intros S HS Hdep. unfold condProb, S in *.
  rewrite HS, Hdep. split; reflexivity.
Qed.

(** A series system of two components, conditioned on a third component. *)
Lemma condProb_law_example :
  let S := System [Component (1/10); Component (2/10)] false true in
  let s := np.exp (- (1/10) * 5) * np.exp (- (2/10) * 5) in
  let d := np.exp (- (3/10) * 5) in
  condProb S (Component (3/10)) 5 false = Ok (PyFloat (s * d)) /\
  condProb S (Component (3/10)) 5 true = Ok (PyFloat (s * (1 - d))).
Proof.
  apply condProb_law.
  - cbn. do 3 f_equal. ring.
  - reflexivity.
Defined.

(** C5.  The claim fails for the configuration with neither flag set, the
    constructor's default: the only child has probability 1 at [t = 0],
    yet [p] falls off its [if]/[elif] and returns [None], not a number of
    the unit interval (nor the [float] its annotation promises). *)
Lemma System_p_in_unit_needs_topology :
  probs [Component 0] 0 [1] /\ Forall in_unit [1] /\ 0 <= 0 /\
  p (System [Component 0] false false) 0 = Ok PyNone /\
  ~ (exists y, p (System [Component 0] false false) 0 = Ok (PyFloat y)
               /\ in_unit y).
Proof.
  repeat split.
  - repeat constructor. cbn [p]. unfold np.exp.
    replace (- 0 * 0) with 0 by ring. now rewrite exp_0.
  - repeat constructor; unfold in_unit; lra.
  - lra.
  - intros (y & Hy & _). discriminate Hy.
Qed.

(** X20.  A [System] with at least one topology flag set, whose
    children's probabilities at [t] lie in [[0,1]], returns a number of
    [[0,1]] at every time [t]. *)
Theorem System_p_in_unit (comps : list Node) (parallel series : bool)
  (t : R) (ps : list R) :
  parallel || series = true ->
  probs comps t ps -> Forall in_unit ps ->
  exists y, p (System comps parallel series) t = Ok (PyFloat y) /\ in_unit y.
Proof.
  intros Hflag Hps Hu.
  destruct (combine_in_unit ps Hu) as [Hser Hpar].
  destruct parallel; [|destruct series; [|discriminate Hflag]].
  - run_System_p Hps. eexists. split; [reflexivity|exact Hpar].
  - run_System_p Hps. eexists. split; [reflexivity|exact Hser].
Qed.

(** Components of rates 0.1 and 0.2 in parallel at [t = 5]. *)
Lemma System_p_in_unit_example :
  exists y, p (System [Component (1/10); Component (2/10)] true false) 5
            = Ok (PyFloat y) /\ in_unit y.
Proof.
  apply (System_p_in_unit [Component (1/10); Component (2/10)] true false 5
           [np.exp (- (1/10) * 5); np.exp (- (2/10) * 5)]).
  - reflexivity.
  - repeat constructor.
  - apply Forall_cons; [|apply Forall_cons; [|apply Forall_nil]];
      apply np_exp_in_unit; lra.
Defined.






(** C8, as stated, fails: none of the three situations raises
    [InvalidArgument].  A negative rate is stored, a negative time is
    evaluated, an empty list of children is stored. *)
Lemma InvalidArgument_not_raised :
  ~ raises "InvalidArgument" (Component_init (-1)) /\
  ~ raises "InvalidArgument" (p (Component 1) (-1)) /\
  ~ raises "InvalidArgument" (p (System [Component 1] false true) (-1)) /\
  ~ raises "InvalidArgument" (System_init [] true false).
Proof.
  unfold raises, Component_init, System_init.
  repeat split; intros H; discriminate H.
Qed.

(** C8 (amended).  The program validates nothing: [Component] is constructed
    with any rate, [Component.p(t)] is [exp(-rate * t)] at any time, a
    [System] is constructed with an empty list of children under any flags,
    and no call of [p] raises [InvalidArgument]. *)
Theorem no_argument_is_validated :
  (forall l, Component_init l = Ok (Component l)) /\
  (forall l t,
      p (Component l) t = Ok (PyFloat (Rtrigo_def.exp (- (l * t))))) /\
  (forall parallel series,
      System_init [] parallel series = Ok (System [] parallel series)) /\
  (forall n t, ~ raises "InvalidArgument" (p n t)).
Proof.
  split; [reflexivity|]. split; [|split; [reflexivity|]].
  - intros l t. cbn [p]. unfold np.exp.
    replace (- l * t) with (- (l * t)) by ring. reflexivity.
  - intros n t H. apply p_only_TypeError in H. discriminate H.
Qed.



(** C10.  With no children, [p(t)] is 0 in PARALLEL topology and 1 in SERIES
    topology, at every time [t]; nothing is raised. *)
Theorem empty_children_p (series : bool) (t : R) :
  p (System [] true series) t = Ok (PyFloat 0) /\
  p (System [] false true) t = Ok (PyFloat 1).
Proof.
  cbn [p map np.fromiter bind]. unfold np.prod. cbn [fold_left fsub].
  split; [|reflexivity].
  replace (1 - 1) with 0 by ring. reflexivity.
Qed.

(* ------------------------------------------------------------------------- *)
(** ** Beyond the specification: the outcomes of [p] *)

(** An array of real numbers was built from items that are real numbers. *)
Lemma fromiter_Finite (items : list (result pyval)) (ps : list R) :
  np.fromiter items = Ok (map Finite ps) ->
  Forall (fun item => exists x, item = Ok (PyFloat x)) items.
Proof.
  revert ps. induction items as [|item rest IH]; intros ps; simpl.
  - constructor.
  - destruct item as [v|e]; simpl; [|discriminate].
    destruct (np.fromiter rest) as [xs|e]; simpl; [|discriminate].
    destruct ps as [|x ps]; simpl; [discriminate|].
    intros [= Hv ->]. constructor; [|now apply (IH ps)].
    destruct v as [f|]; simpl in Hv; [|discriminate]. subst f. now exists x.
Qed.

Lemma generateQ_number (c : Node) (t x : R) :
  (v <- p c t ;; rsub 1 v) = Ok (PyFloat x) ->
  exists y, p c t = Ok (PyFloat y).
Proof.
  destruct (p c t) as [[[y|]|]|e]; simpl; try discriminate.
  intros _. now exists y.
Qed.

(** What [p] does, by the flags of the tree: a real number when every
    [System] has a flag, [None] when the root has none; otherwise [nan]
    or [TypeError]. *)
Lemma p_outcome (n : Node) (t : R) :
  match p n t with
  | Ok (PyFloat _) => has_topology n = true
  | Ok PyNaN => topology_set n = true /\ has_topology n = false
  | Ok PyNone => topology_set n = false
  | Err e => e = TypeError /\ topology_set n = true /\ has_topology n = false
  end.
Proof.
  induction n as [l|comps parallel series IH] using Node_tree_ind.
  - reflexivity.
  - assert (Hnot : (forall x, p (System comps parallel series) t
                              <> Ok (PyFloat x)) ->
                   has_topology (System comps parallel series) = false).
    { intros Hx.
      destruct (has_topology (System comps parallel series)) eqn:Ht;
        [|reflexivity].
      destruct (p_total _ t Ht) as [y Hy]. now elim (Hx y). }
    assert (Hflag : p (System comps parallel series) t <> Ok PyNone ->
                    topology_set (System comps parallel series) = true).
    { destruct parallel; [reflexivity|].
      destruct series; [reflexivity|]. intros H. now elim H. }
    destruct (p (System comps parallel series) t) as [[[x|]|]|e] eqn:E.
    + cbn [has_topology]. apply andb_true_iff.
      destruct parallel; [|destruct series; [|discriminate E]];
        cbn [p] in E; (split; [reflexivity|]);
        destruct (np.fromiter _) as [a|e] eqn:Ea; try discriminate E;
        cbn [bind] in E;
        (destruct (np.prod a) as [z|] eqn:Ez; [|discriminate E]);
        apply np_prod_Finite in Ez as [ps ->];
        apply fromiter_Finite in Ea; rewrite Forall_map in Ea;
        apply forallb_forall; intros c Hc;
        rewrite Forall_forall in IH, Ea;
        specialize (IH c Hc); destruct (Ea c Hc) as [y Hy].
      * apply generateQ_number in Hy as [w Hw]. now rewrite Hw in IH.
      * now rewrite Hy in IH.
    + split; [apply Hflag; discriminate|].
      apply Hnot. intros y. discriminate.
    + destruct parallel; [|destruct series; [|reflexivity]];
        cbn [p] in E; destruct (np.fromiter _); discriminate E.
    + split; [exact (p_only_TypeError _ t e E)|].
      split; [apply Hflag; discriminate|].
      apply Hnot. intros y. discriminate.
Qed.


(** X2.  [p(t)] returns [None] exactly when the root is a [System] with
    neither flag set, whatever its children are: they are not evaluated. *)
Theorem p_None_iff_no_flag (n : Node) (t : R) :
  p n t = Ok PyNone <-> topology_set n = false.
Proof.
  pose proof (p_outcome n t) as H. split.
  - intros E. now rewrite E in H.
  - intros Hflag. destruct (p n t) as [[[x|]|]|e]; [| |reflexivity|].
    + destruct n as [l|comps parallel series]; [discriminate Hflag|].
      cbn [has_topology topology_set] in *. rewrite Hflag in H.
      discriminate H.
    + destruct H as [H _]. congruence.
    + destruct H as (_ & H & _). congruence.
Qed.

Lemma p_None_flagless (n : Node) (t : R) :
  p n t = Ok PyNone -> topology_set n = false.
Proof.
  intros E. pose proof (p_outcome n t) as H. now rewrite E in H.
Qed.

Lemma p_flagless_None (n : Node) (t : R) :
  topology_set n = false -> p n t = Ok PyNone.
Proof.
  destruct n as [l|comps parallel series]; [discriminate|].
  cbn [topology_set]. intros H. apply orb_false_iff in H as [-> ->].
  reflexivity.
Qed.

(** [np.fromiter] raises exactly when an item of its generator raises. *)
Lemma fromiter_raises (items : list (result pyval)) :
  (exists e, np.fromiter items = Err e)
  <-> exists item, In item items /\ exists e, item = Err e.
Proof.
  induction items as [|item rest IH]; simpl.
  - split; [intros [e He]; discriminate He|intros (item & [] & _)].
  - destruct item as [v|e0]; simpl.
    + destruct (np.fromiter rest) as [xs|e1]; simpl.
      * split; [intros [e He]; discriminate He|].
        intros (item & [<-|Hin] & e & He); [discriminate He|].
        destruct (proj2 IH) as [e' He']; [|discriminate He'].
        exists item. split; [exact Hin|]. now exists e.
      * split; [|intros _; now exists e1].
        intros _. destruct (proj1 IH) as (item & Hin & He);
          [now exists e1|].
        exists item. split; [now right|exact He].
    + split; [|intros _; now exists e0].
      intros _. exists (Err e0). split; [now left|now exists e0].
Qed.

(** The item [1 - c.p(t)] raises when [c.p(t)] raises or is [None]. *)
Lemma generateQ_raises (c : Node) (t : R) :
  (exists e, (v <- p c t ;; rsub 1 v) = Err e)
  <-> p c t = Ok PyNone \/ exists e, p c t = Err e.
Proof.
  destruct (p c t) as [[f|]|e0]; simpl.
  - split; [intros [e He]; discriminate He|].
    intros [H|[e He]]; discriminate.
  - split; [now left|]. intros _. now exists TypeError.
  - split; [right; now exists e0|]. intros _. now exists e0.
Qed.

Lemma p_raises_subtracts (n : Node) (t : R) :
  (exists e, p n t = Err e) <-> subtracts_from_None n = true.
Proof.
  induction n as [l|comps parallel series IH] using Node_tree_ind.
  - split; [intros [e He]; discriminate He|discriminate].
  - rewrite Forall_forall in IH. cbn [p subtracts_from_None].
    destruct parallel; [|destruct series].
    + rewrite existsb_exists. split.
      * intros [e He].
        destruct (np.fromiter _) as [a|e'] eqn:Ea; [discriminate He|].
        assert (Hex : exists e0, np.fromiter
                                   (map (fun c => v <- p c t ;; rsub 1 v)
                                      comps) = Err e0)
          by (exists e'; exact Ea).
        apply fromiter_raises in Hex as (item & Hin & Hitem).
        apply in_map_iff in Hin as (c & <- & Hc).
        exists c. split; [exact Hc|].
        apply generateQ_raises in Hitem as [HNone|Herr].
        -- apply p_None_flagless in HNone. now rewrite HNone.
        -- apply (IH c Hc) in Herr. rewrite Herr. apply orb_true_r.
      * intros (c & Hc & Hsub).
        destruct (proj2 (fromiter_raises
                           (map (fun c => v <- p c t ;; rsub 1 v) comps)))
          as [e He].
        { exists (v <- p c t ;; rsub 1 v).
          split; [now apply (in_map (fun c => v <- p c t ;; rsub 1 v))|].
          apply generateQ_raises.
          apply orb_true_iff in Hsub as [Hflag|Hsub].
          - left. apply p_flagless_None.
            now destruct (topology_set c).
          - right. now apply (IH c Hc). }
        rewrite He. now exists e.
    + rewrite existsb_exists. split.
      * intros [e He].
        destruct (np.fromiter _) as [a|e'] eqn:Ea; [discriminate He|].
        assert (Hex : exists e0, np.fromiter (map (fun c => p c t) comps)
                                 = Err e0)
          by (exists e'; exact Ea).
        apply fromiter_raises in Hex as (item & Hin & Hitem).
        apply in_map_iff in Hin as (c & <- & Hc).
        exists c. split; [exact Hc|]. now apply (IH c Hc).
      * intros (c & Hc & Hsub).
        destruct (proj2 (fromiter_raises (map (fun c => p c t) comps)))
          as [e He].
        { exists (p c t).
          split; [now apply (in_map (fun c => p c t))|].
          now apply (IH c Hc). }
        rewrite He. now exists e.
    + split; [intros [e He]; discriminate He|discriminate].
Qed.

(** X3.  [p(t)] raises exactly when its evaluation meets a [1 - None]: a
    PARALLEL [System] that it reaches has a child [System] with neither
    flag set.  The exception is always [TypeError].  (A SERIES [System]
    over such a child does not raise: numpy stores [nan] for it.) *)
Theorem p_raises_iff (n : Node) (t : R) :
  (forall e, p n t = Err e -> e = TypeError) /\
  (raises "TypeError" (p n t) <-> subtracts_from_None n = true).
Proof.
  split; [apply p_only_TypeError|].
  rewrite <- (p_raises_subtracts n t). unfold raises. split.
  - intros E. now exists (Raise "TypeError").
  - intros [e He]. rewrite He. f_equal.
    exact (p_only_TypeError n t e He).
Qed.


(* ------------------------------------------------------------------------- *)
(** ** Beyond the specification: reliability over time *)

(** X4.  At a time [t >= 0], a tree whose components have rates [>= 0] and
    whose systems all have a topology flag set returns a number of the
    unit interval, however deep the nesting. *)
Theorem nested_p_in_unit (n : Node) (t : R) :
  0 <= t -> has_topology n = true -> rates_nonneg n ->
  exists x, p n t = Ok (PyFloat x) /\ 0 <= x <= 1.
Proof.
  intros Ht Htop Hrates.
  destruct (p_tree_in_unit n t Ht Htop Hrates) as (x & Hx & Hu).
  exists x. split; [exact Hx|exact Hu].
Qed.

(** Scenario E of the specification: a component in parallel with a series
    subsystem, at [t = 2]. *)
Lemma nested_p_in_unit_scenario_E :
  exists x,
    p (System [Component (1/10);
               System [Component (2/10); Component (3/10)] false true]
         true false) 2 = Ok (PyFloat x) /\ 0 <= x <= 1.
Proof.
  apply nested_p_in_unit.
  - lra.
  - reflexivity.
  - simpl. lra.
Defined.

Lemma np_exp_le (x y : R) : x <= y -> np.exp x <= np.exp y.
Proof.
  unfold np.exp. intros [Hlt| ->].
  - left. now apply exp_increasing.
  - right. reflexivity.
Qed.

Lemma Rprod_le (xs ys : list R) :
  Forall2 Rle xs ys -> Forall in_unit xs -> Forall in_unit ys ->
  Rprod xs <= Rprod ys.
Proof.
  unfold in_unit.
  induction 1 as [|x y xs ys Hxy _ IH]; simpl; intros Hx Hy.
  - lra.
  - inversion Hx as [|? ? Hx0 Hxs]; inversion Hy as [|? ? Hy0 Hys]; subst.
    specialize (IH Hxs Hys).
    pose proof (Rprod_in_unit _ Hxs) as Hpx. unfold in_unit in Hpx.
    apply Rmult_le_compat; lra.
Qed.

Lemma complement_le (xs ys : list R) :
  Forall2 Rle xs ys ->
  Forall2 Rle (map (fun y => 1 - y) ys) (map (fun x => 1 - x) xs).
Proof.
  induction 1; simpl; constructor; trivial; lra.
Qed.

(** The two laws are monotone in the children's probabilities. *)
Lemma combine_le (xs ys : list R) :
  Forall2 Rle xs ys -> Forall in_unit xs -> Forall in_unit ys ->
  Rprod xs <= Rprod ys /\
  1 - Rprod (map (fun x => 1 - x) xs) <= 1 - Rprod (map (fun y => 1 - y) ys).
Proof.
  intros Hle Hx Hy. split; [now apply Rprod_le|].
  pose proof (Rprod_le _ _ (complement_le _ _ Hle)
                (complement_in_unit _ Hy) (complement_in_unit _ Hx)).
  lra.
Qed.

Section Monotone.
Variables t1 t2 : R.
Hypothesis Ht : 0 <= t1 <= t2.

(** The statement carried through the tree: numbers at both times, both
    of the unit interval, the later one no larger. *)
Let later_le (n : Node) : Prop :=
  exists x1 x2, p n t1 = Ok (PyFloat x1) /\ p n t2 = Ok (PyFloat x2) /\
                in_unit x1 /\ in_unit x2 /\ x2 <= x1.

Lemma children_later_le (comps : list Node) :
  Forall (fun c => has_topology c = true -> rates_nonneg c -> later_le c)
    comps ->
  forallb has_topology comps = true ->
  fold_right (fun c acc => rates_nonneg c /\ acc) True comps ->
  exists ps1 ps2, probs comps t1 ps1 /\ probs comps t2 ps2 /\
                  Forall in_unit ps1 /\ Forall in_unit ps2 /\
                  Forall2 Rle ps2 ps1.
Proof.
  induction 1 as [|c comps Hc _ IH]; simpl; intros Htop Hr.
  - exists [], []. repeat split; constructor.
  - apply andb_true_iff in Htop as [Htc Htl]. destruct Hr as [Hrc Hrl].
    destruct (Hc Htc Hrc) as (x1 & x2 & E1 & E2 & U1 & U2 & Hle).
    destruct (IH Htl Hrl) as (ps1 & ps2 & P1 & P2 & V1 & V2 & Hles).
    exists (x1 :: ps1), (x2 :: ps2). repeat split; now constructor.
Qed.

Lemma p_tree_later_le (n : Node) :
  has_topology n = true -> rates_nonneg n -> later_le n.
Proof.
  induction n as [l|comps parallel series IH] using Node_tree_ind;
    intros Htop Hrates.
  - simpl in Hrates. do 2 eexists.
    split; [reflexivity|]. split; [reflexivity|].
    split; [apply np_exp_in_unit; nra|].
    split; [apply np_exp_in_unit; nra|].
    apply np_exp_le; nra.
  - cbn [has_topology] in Htop. apply andb_true_iff in Htop as [Hflag Hcs].
    destruct (children_later_le _ IH Hcs Hrates)
      as (ps1 & ps2 & P1 & P2 & U1 & U2 & Hle).
    destruct (combine_in_unit _ U1) as [S1 Q1].
    destruct (combine_in_unit _ U2) as [S2 Q2].
    destruct (combine_le _ _ Hle U2 U1) as [Hs Hq].
    destruct parallel; [|destruct series; [|discriminate]]; do 2 eexists.
    + split; [run_System_p P1; reflexivity|].
      split; [run_System_p P2; reflexivity|]. auto.
    + split; [run_System_p P1; reflexivity|].
      split; [run_System_p P2; reflexivity|]. auto.
Qed.

End Monotone.

(** X5.  Reliability does not grow with time: for [0 <= t1 <= t2], a tree
    with rates [>= 0] and a topology flag on every system returns numbers
    at both times, and the one at [t2] is no larger than the one at [t1]. *)
Theorem p_nonincreasing (n : Node) (t1 t2 : R) :
  0 <= t1 <= t2 -> has_topology n = true -> rates_nonneg n ->
  exists x1 x2, p n t1 = Ok (PyFloat x1) /\ p n t2 = Ok (PyFloat x2) /\
                x2 <= x1.
Proof.
  intros Ht Htop Hrates.
  destruct (p_tree_later_le t1 t2 Ht n Htop Hrates)
    as (x1 & x2 & E1 & E2 & _ & _ & Hle).
  exists x1, x2. auto.
Qed.

(** The nested system of scenario E, between [t = 2] and [t = 5]. *)
Lemma p_nonincreasing_scenario_E :
  let sys := System [Component (1/10);
                     System [Component (2/10); Component (3/10)] false true]
               true false in
  exists x1 x2, p sys 2 = Ok (PyFloat x1) /\ p sys 5 = Ok (PyFloat x2) /\
                x2 <= x1.
Proof.
  apply p_nonincreasing.
  - lra.
  - reflexivity.
  - simpl. lra.
Defined.

(* ------------------------------------------------------------------------- *)
(** ** Beyond the specification: time zero, and positivity *)

Lemma Rprod_ones (A : Type) (l : list A) : Rprod (map (fun _ => 1) l) = 1.
Proof.
  induction l as [|a l IH]; simpl; [reflexivity|]. rewrite IH. ring.
Qed.

Lemma Rprod_complement_ones (A : Type) (l : list A) :
  l <> [] -> Rprod (map (fun x => 1 - x) (map (fun _ => 1) l)) = 0.
Proof.
  destruct l as [|a l]; [congruence|]. intros _. simpl. ring.
Qed.

Lemma children_at_zero (comps : list Node) :
  Forall (fun c => has_topology c = true -> parallel_nonempty c = true ->
                   p c 0 = Ok (PyFloat 1)) comps ->
  forallb has_topology comps = true ->
  forallb parallel_nonempty comps = true ->
  probs comps 0 (map (fun _ => 1) comps).
Proof.
  induction 1 as [|c comps Hc _ IH]; simpl; intros Ht Hn.
  - constructor.
  - apply andb_true_iff in Ht as [Htc Htl].
    apply andb_true_iff in Hn as [Hnc Hnl].
    constructor; [exact (Hc Htc Hnc)|exact (IH Htl Hnl)].
Qed.

(** X6.  At [t = 0] every tree with a topology flag on every system and
    no empty PARALLEL system returns exactly 1, whatever the rates. *)
Theorem p_at_time_zero (n : Node) :
  has_topology n = true -> parallel_nonempty n = true ->
  p n 0 = Ok (PyFloat 1).
Proof.
  induction n as [l|comps parallel series IH] using Node_tree_ind;
    intros Htop Hne.
  - cbn [p]. unfold np.exp. replace (- l * 0) with 0 by ring.
    now rewrite exp_0.
  - cbn [has_topology] in Htop. apply andb_true_iff in Htop as [Hflag Hcs].
    cbn [parallel_nonempty] in Hne. apply andb_true_iff in Hne as [Hroot Hns].
    pose proof (children_at_zero _ IH Hcs Hns) as Hps.
    destruct parallel; [|destruct series; [|discriminate]].
    + run_System_p Hps. rewrite Rprod_complement_ones.
      * do 3 f_equal. ring.
      * destruct comps; [discriminate Hroot|discriminate].
    + run_System_p Hps. now rewrite Rprod_ones.
Qed.

(** Scenario E at [t = 0]; the rates are of no account, one is negative. *)
Lemma p_at_time_zero_example :
  p (System [Component (-1);
             System [Component (2/10); Component (3/10)] false true]
       true false) 0 = Ok (PyFloat 1).
Proof.
  apply p_at_time_zero; reflexivity.
Defined.

(* ------------------------------------------------------------------------- *)
(** ** Beyond the specification: nesting *)




(* ------------------------------------------------------------------------- *)
(** ** Beyond the specification: [condProb] *)







(** X11.  At a time [t >= 0], for trees with rates [>= 0] and a topology
    flag on every system, each result of [condProb] lies between 0 and
    [self.p(t)]. *)
Theorem condProb_bounded (comps : list Node) (parallel series : bool)
  (dep : Node) (t : R) (negate : bool) :
  let S := System comps parallel series in
  0 <= t ->
  has_topology S = true -> rates_nonneg S ->
  has_topology dep = true -> rates_nonneg dep ->
  exists s a, p S t = Ok (PyFloat s) /\
              condProb S dep t negate = Ok (PyFloat a) /\
              0 <= a <= s /\ s <= 1.
Proof.
  intros S Ht HS RS Hd Rd. unfold condProb, S in *.
  destruct (p_tree_in_unit _ t Ht HS RS) as (s & Es & Us).
  destruct (p_tree_in_unit _ t Ht Hd Rd) as (d & Ed & Ud).
  rewrite Es, Ed. unfold in_unit in *.
  destruct negate; cbn [bind rsub mul fsub fmul]; do 2 eexists;
    (split; [reflexivity|]); (split; [reflexivity|]); nra.
Qed.

(** The same two systems at [t = 5], with [negate] set. *)
Lemma condProb_bounded_example :
  let S := System [Component (1/10); Component (2/10)] false true in
  let dep := System [Component (3/10); Component (4/10)] true false in
  exists s a, p S 5 = Ok (PyFloat s) /\
              condProb S dep 5 true = Ok (PyFloat a) /\
              0 <= a <= s /\ s <= 1.
Proof.
  apply condProb_bounded.
  - lra.
  - reflexivity.
  - simpl. lra.
  - reflexivity.
  - simpl. lra.
Defined.

(* ------------------------------------------------------------------------- *)
(** ** Beyond the specification: [Component] *)

(** X12.  [Component.p(t)] is a number [>= 0] for every rate and time,
    at most 1 when [rate * t >= 0] and at least 1 when [rate * t <= 0]:
    nothing keeps a negative rate or a negative time from yielding a
    "probability" above 1. *)
Theorem Component_p_range (l t : R) :
  exists x, p (Component l) t = Ok (PyFloat x) /\
            0 <= x /\ (0 <= l * t -> x <= 1) /\ (l * t <= 0 -> 1 <= x).
Proof.
  eexists. split; [reflexivity|].
  split; [left; apply exp_pos|]. split; intros H.
  - apply np_exp_in_unit. nra.
  - pose proof (np_exp_le 0 (- l * t)) as Hle. unfold np.exp in Hle at 1.
    rewrite exp_0 in Hle. apply Hle. nra.
Qed.





(* ------------------------------------------------------------------------- *)
(** ** Beyond the specification: comparing systems *)

Lemma Rprod_complement_in_unit (ps : list R) :
  Forall in_unit ps -> in_unit (Rprod (map (fun x => 1 - x) ps)).
Proof.
  intros H. now apply Rprod_in_unit, complement_in_unit.
Qed.

(** X16.  One more child, of probability in [[0,1]], cannot raise the
    reliability of a SERIES system and cannot lower that of a PARALLEL
    system. *)
Theorem one_more_child (c : Node) (comps : list Node) (series : bool)
  (t x : R) (ps : list R) :
  p c t = Ok (PyFloat x) -> in_unit x ->
  probs comps t ps -> Forall in_unit ps ->
  exists a a' b b',
    p (System comps false true) t = Ok (PyFloat a) /\
    p (System (c :: comps) false true) t = Ok (PyFloat a') /\
    a' <= a /\
    p (System comps true series) t = Ok (PyFloat b) /\
    p (System (c :: comps) true series) t = Ok (PyFloat b') /\
    b <= b'.
Proof.
  intros Hc Hx Hps Hu.
  assert (Hps' : probs (c :: comps) t (x :: ps)) by now constructor.
  pose proof (Rprod_in_unit _ Hu) as H1.
  pose proof (Rprod_complement_in_unit _ Hu) as H2.
  do 4 eexists.
  split; [run_System_p Hps; reflexivity|].
  split; [run_System_p Hps'; reflexivity|].
  split; [cbn [Rprod fold_right]; unfold in_unit, Rprod in *; nra|].
  split; [run_System_p Hps; reflexivity|].
  split; [run_System_p Hps'; reflexivity|].
  cbn [map Rprod fold_right]. unfold in_unit, Rprod in *. nra.
Qed.

(** A third component, of rate 0.3, joins the two of scenarios C and D. *)
Lemma one_more_child_example :
  let comps := [Component (1/10); Component (2/10)] in
  let c := Component (3/10) in
  exists a a' b b',
    p (System comps false true) 5 = Ok (PyFloat a) /\
    p (System (c :: comps) false true) 5 = Ok (PyFloat a') /\
    a' <= a /\
    p (System comps true false) 5 = Ok (PyFloat b) /\
    p (System (c :: comps) true false) 5 = Ok (PyFloat b') /\
    b <= b'.
Proof.
  apply (one_more_child (Component (3/10))
           [Component (1/10); Component (2/10)] false 5
           (np.exp (- (3/10) * 5))
           [np.exp (- (1/10) * 5); np.exp (- (2/10) * 5)]).
  - reflexivity.
  - apply np_exp_in_unit; lra.
  - repeat constructor.
  - apply Forall_cons; [|apply Forall_cons; [|apply Forall_nil]];
      apply np_exp_in_unit; lra.
Defined.






